(** * Photo overlay: pixel and millimetre placement of the card photo

    A shallow embedding of [src/app/utils/photoOverlay.ts].

    JavaScript numbers are IEEE 754 binary64 values, so the [number] type
    of the source is modelled by Rocq's primitive floats, whose operations
    are the same binary64 operations (round to nearest, ties to even,
    NaN, signed zeros and infinities included). *)

From Stdlib Require Import ZArith QArith Qround Lia Bool List Ascii String.
From Stdlib Require Import DecimalString.
From Stdlib Require Import Floats.
Import ListNotations.

Local Open Scope float_scope.

(** ** Numbers *)

Definition number : Type := float.

(** [a > b] of JavaScript: false as soon as an operand is NaN. *)
Definition js_gt (a b : number) : bool := b <? a.

(** ** Data model *)

(** ['circle' | 'rounded' | 'square'] *)
Inductive PhotoShape : Type :=
| circle
| rounded
| square.

(** [resolved.photoPosition] *)
Record Position : Type := { x : number; y : number }.

(** [resolved.photoSize] *)
Record Size : Type := { width : number; height : number }.

(** What [resolveTemplateDesign] returns, as far as this module reads it.
    [showPhoto] is compared with [!== false], so it may be absent. *)
Record ResolvedDesign : Type := {
  photoPosition : Position;
  photoSize : Size;
  photoShape : PhotoShape;
  showPhoto : option bool
}.

(** [Template]: only its [front] design is read here. *)
Record Template (TemplateDesign : Type) : Type := { front : TemplateDesign }.
Arguments front {TemplateDesign} _.

Record PhotoOverlayParams : Type := {
  leftPx : number;
  topPx : number;
  widthPx : number;
  heightPx : number;
  leftMM : number;
  topMM : number;
  widthMM : number;
  heightMM : number;
  shape : PhotoShape;
  visible : bool
}.

(** Card physical constants *)
Definition CARD_WIDTH_PX : number := 153.
Definition CARD_HEIGHT_PX : number := 244.

(** [v !== false] for an optional boolean. *)
Definition not_false (v : option bool) : bool :=
  match v with
  | Some false => false
  | _ => true
  end.

Section Overlay.

(** The resolver is imported from [./templateData]; the overlay is a function
    of whatever it returns. *)
Variable TemplateDesign : Type.
Variable resolveTemplateDesign : TemplateDesign -> ResolvedDesign.

Definition getPhotoOverlayParams
  (template : Template TemplateDesign) (cardWidthMM cardHeightMM : number)
  : PhotoOverlayParams :=
  let resolved := resolveTemplateDesign (front template) in
  let leftPx := x (photoPosition resolved) in
  let topPx := y (photoPosition resolved) in
  let widthPx := width (photoSize resolved) in
  let heightPx := height (photoSize resolved) in
  {| leftPx := leftPx;
     topPx := topPx;
     widthPx := widthPx;
     heightPx := heightPx;
     leftMM := (leftPx / CARD_WIDTH_PX) * cardWidthMM;
     topMM := (topPx / CARD_HEIGHT_PX) * cardHeightMM;
     widthMM := (widthPx / CARD_WIDTH_PX) * cardWidthMM;
     heightMM := (heightPx / CARD_HEIGHT_PX) * cardHeightMM;
     shape := photoShape resolved;
     visible := not_false (showPhoto resolved)
                && js_gt widthPx 0 && js_gt heightPx 0 |}.

End Overlay.

Arguments getPhotoOverlayParams {TemplateDesign} _ _ _ _.

(** A fixture: the template design is already resolved. *)
Definition fixture (r : ResolvedDesign) : Template ResolvedDesign :=
  {| front := r |}.

Definition design (px py pw ph : number) (s : PhotoShape) (v : option bool)
  : ResolvedDesign :=
  {| photoPosition := {| x := px; y := py |};
     photoSize := {| width := pw; height := ph |};
     photoShape := s;
     showPhoto := v |}.

(** ** Strings

    A JavaScript string is a sequence of UTF-16 code units and [length]
    counts them. *)

Definition code_unit : Type := N.
Definition js_string : Type := list code_unit.

(** An ASCII literal of the source. *)
Definition lit (s : string) : js_string :=
  List.map N_of_ascii (list_ascii_of_string s).

(** [s.startsWith(prefix)] *)
Fixpoint startsWith (s prefix : js_string) {struct prefix} : bool :=
  match prefix, s with
  | [], _ => true
  | _ :: _, [] => false
  | p :: prefix', c :: s' => N.eqb c p && startsWith s' prefix'
  end.

(** [Math.round]: the nearest integer, a tie going up. *)
Definition Math_round (q : Q) : Z := Qfloor (q + (1 # 2))%Q.

(** A boolean and an integer inside a template literal. *)
Definition of_bool (b : bool) : js_string :=
  if b then lit "true" else lit "false".

Definition of_int (n : Z) : js_string :=
  lit (NilZero.string_of_int (Z.to_int n)).

(** The characters of the messages that are not ASCII. *)
Definition em_dash : js_string := [0x2014%N].
Definition tee : js_string := [0x251c%N; 0x2500%N].
Definition elbow : js_string := [0x2514%N; 0x2500%N].
Definition warning_sign : js_string := [0x26a0%N; 0xfe0f%N].

(** ** The console

    [console.warn] and [console.log] append one entry each; the functions
    below thread the console through their calls. *)

Inductive Level : Type :=
| Warn
| Log.

Record Entry : Type := { level : Level; text : js_string }.

Definition Console : Type := list Entry.

Definition IO (A : Type) : Type := Console -> A * Console.

Definition ret {A : Type} (a : A) : IO A := fun c => (a, c).

Definition bind {A B : Type} (m : IO A) (k : A -> IO B) : IO B :=
  fun c => let (a, c') := m c in k a c'.

Notation "m ;; k" := (bind m (fun _ => k))
  (at level 61, right associativity).

Definition console_warn (s : js_string) : IO unit :=
  fun c => (tt, c ++ [{| level := Warn; text := s |}]).

Definition console_log (s : js_string) : IO unit :=
  fun c => (tt, c ++ [{| level := Log; text := s |}]).

(** ** The diagnostic *)

Definition verifyPhotoSource
  (employeeName : js_string) (photoBase64 : option js_string)
  (templateName : js_string) : IO unit :=
  match photoBase64 with
  | None | Some [] =>
      console_warn (lit "[PHOTO-VERIFY] " ++ employeeName ++ lit ": NO PHOTO "
                    ++ em_dash ++ lit " export will have blank photo area")
  | Some photoBase64 =>
      let isDataUrl := startsWith photoBase64 (lit "data:image/") in
      let isPNG := startsWith photoBase64 (lit "data:image/png") in
      let sizeKB :=
        Math_round (inject_Z (Z.of_nat (List.length photoBase64)) / 1024)%Q in
      console_log (lit "[PHOTO-VERIFY] " ++ employeeName ++ lit ":") ;;
      console_log (lit "  " ++ tee ++ lit " Template: " ++ templateName) ;;
      console_log (lit "  " ++ tee ++ lit " Is data URL: " ++ of_bool isDataUrl) ;;
      console_log (lit "  " ++ tee ++ lit " Format: "
                   ++ (if isPNG then lit "PNG (supports transparency)"
                       else lit "JPEG/other")) ;;
      console_log (lit "  " ++ tee ++ lit " Size: " ++ of_int sizeKB ++ lit " KB") ;;
      console_log (lit "  " ++ elbow ++ lit " Source: "
                   ++ (if isDataUrl then lit "PROCESSED (bg-removed + cropped)"
                       else warning_sign ++ lit " RAW URL " ++ em_dash
                            ++ lit " possible bug"))
  end.

(** ** Vocabulary of the statements *)

(** The exact value of a finite number, as a rational. *)
Definition exact_value (v : number) : option Q :=
  match Prim2SF v with
  | S754_zero _ => Some 0%Q
  | S754_finite s m e =>
      let q := (inject_Z (Z.pos m) * Qpower 2 e)%Q in
      Some (if s then (- q)%Q else q)
  | _ => None
  end.

(** [v], rounded to two decimals, is [hundredths / 100]. *)
Definition two_decimals (v : number) (hundredths : Z) : Prop :=
  exists q, exact_value v = Some q /\
    (inject_Z hundredths - (1 # 2) <= q * 100)%Q /\
    (q * 100 < inject_Z hundredths + (1 # 2))%Q.

(** Strictly positive: a positive subnormal or normal number, or +Infinity. *)
Definition strictly_positive (v : number) : Prop :=
  match classify v with
  | PSubn | PNormal | PInf => True
  | _ => False
  end.

(** Zero or negative: [v <= 0] holds. *)
Definition zero_or_negative (v : number) : Prop := (v <=? 0) = true.

(** [s] begins with [prefix]; [s] contains [sub]. *)
Definition begins_with (s prefix : js_string) : Prop :=
  exists rest, s = prefix ++ rest.

Definition contains (s sub : js_string) : Prop :=
  exists before after, s = before ++ sub ++ after.

(** [k] is an integer nearest to [n / 1024]. *)
Definition nearest_KB (n : nat) (k : Z) : Prop :=
  (1024 * k - 512 <= Z.of_nat n < 1024 * k + 512)%Z.

(** The lines of the informational block, by what they report. *)
Definition header_line (name : js_string) : js_string :=
  lit "[PHOTO-VERIFY] " ++ name ++ lit ":".

Definition template_line (templateName : js_string) : js_string :=
  lit "  " ++ tee ++ lit " Template: " ++ templateName.

Definition data_url_line (isDataUrl : bool) : js_string :=
  lit "  " ++ tee ++ lit " Is data URL: " ++ of_bool isDataUrl.

Definition format_line (isPNG : bool) : js_string :=
  lit "  " ++ tee ++ lit " Format: "
  ++ (if isPNG then lit "PNG (supports transparency)" else lit "JPEG/other").

Definition size_line (sizeKB : Z) : js_string :=
  lit "  " ++ tee ++ lit " Size: " ++ of_int sizeKB ++ lit " KB".

Definition source_line (isDataUrl : bool) : js_string :=
  lit "  " ++ elbow ++ lit " Source: "
  ++ (if isDataUrl then lit "PROCESSED (bg-removed + cropped)"
      else warning_sign ++ lit " RAW URL " ++ em_dash ++ lit " possible bug").

Definition info (s : js_string) : Entry := {| level := Log; text := s |}.

Definition info_block
  (name templateName : js_string) (isDataUrl isPNG : bool) (sizeKB : Z)
  : list Entry :=
  [ info (header_line name);
    info (template_line templateName);
    info (data_url_line isDataUrl);
    info (format_line isPNG);
    info (size_line sizeKB);
    info (source_line isDataUrl) ].

(** Twice a binary64 value, on its representation: the exponent goes up by
    one, and past the largest exponent the value becomes an infinity. *)
Definition SF_double (f : spec_float) : spec_float :=
  match f with
  | S754_finite s m e =>
      if (e + 1 <=? emax - prec)%Z then S754_finite s m (e + 1)
      else S754_infinity s
  | _ => f
  end.

Definition SF_two : spec_float := S754_finite false 4503599627370496 (-51).

(** The millimetre fields of [o2] are twice those of [o1]. *)
Definition doubles_millimetres (o2 o1 : PhotoOverlayParams) : Prop :=
  leftMM o2 = 2 * leftMM o1 /\
  topMM o2 = 2 * topMM o1 /\
  widthMM o2 = 2 * widthMM o1 /\
  heightMM o2 = 2 * heightMM o1.

(** The pixel fields of [o2] are those of [o1]. *)
Definition same_pixels (o2 o1 : PhotoOverlayParams) : Prop :=
  leftPx o2 = leftPx o1 /\
  topPx o2 = topPx o1 /\
  widthPx o2 = widthPx o1 /\
  heightPx o2 = heightPx o1.

(** [Number.isFinite]: neither NaN nor an infinity. *)
Definition finite_number (v : number) : Prop := (abs v <? infinity) = true.

(** A binary64 value that is not NaN and carries the sign bit [s]. *)
Definition SF_has_sign (s : bool) (f : spec_float) : Prop :=
  match f with
  | S754_zero s' | S754_infinity s' | S754_finite s' _ _ => s' = s
  | S754_nan => False
  end.

(** The millimetre fields of [o2] are the opposites of those of [o1]. *)
Definition negates_millimetres (o2 o1 : PhotoOverlayParams) : Prop :=
  leftMM o2 = - leftMM o1 /\
  topMM o2 = - topMM o1 /\
  widthMM o2 = - widthMM o1 /\
  heightMM o2 = - heightMM o1.

(** [|p| > 2^-1022]: larger in magnitude than the smallest normal number.
    Infinities qualify. *)
Definition above_smallest_normal (p : number) : Prop :=
  (0x1p-1022 <? abs p) = true.

(** When doubling the target [w] doubles the product [a * w] exactly: the
    target is zero, or not finite (an infinity or NaN), or else its double
    is still finite and the product is NaN, comes from a zero [a], or is
    larger in magnitude than the smallest normal number. *)
Definition exact_doubling (a w : number) : Prop :=
  (w =? 0) = true \/
  ~ finite_number w \/
  (finite_number (2 * w) /\
   ((a =? 0) = true \/ a * w = nan \/ above_smallest_normal (a * w))).

(** * Properties of the overlay *)

(** ** Numbers: the sign tests *)

Lemma Prim2SF_zero : Prim2SF 0 = S754_zero false.
Proof. reflexivity. Qed.

(** [v > 0] holds exactly for the strictly positive numbers. *)
Lemma js_gt_zero_iff (v : number) :
  js_gt v 0 = true <-> strictly_positive v.
Proof.
  unfold js_gt, strictly_positive.
  rewrite ltb_spec, classify_spec, Prim2SF_zero.
  unfold SF64classify, SFclassify, SFltb, SFcompare.
  destruct (Prim2SF v) as [[|]|[|]| |[|] m e]; try (split; [discriminate|tauto]);
    try (split; [tauto|reflexivity]);
    destruct (Z.pos (digits2_pos m) =? prec)%Z;
    split; try discriminate; try tauto; reflexivity.
Qed.

(** A number that is zero or negative is not [> 0]. *)
Lemma js_gt_zero_or_negative (v : number) :
  zero_or_negative v -> js_gt v 0 = false.
Proof.
  unfold js_gt, zero_or_negative.
  rewrite ltb_spec, leb_spec, Prim2SF_zero.
  unfold SFltb, SFleb, SFcompare.
  destruct (Prim2SF v) as [[|]|[|]| |[|] m e]; try reflexivity; discriminate.
Qed.

Lemma not_false_iff (v : option bool) : not_false v = true <-> v <> Some false.
Proof.
  destruct v as [[|]|]; simpl; split; congruence.
Qed.

Section OverlayFacts.

Variable TemplateDesign : Type.
Variable resolveTemplateDesign : TemplateDesign -> ResolvedDesign.

(** C1. The millimetre fields are the pixel fields divided by the reference
    pixel dimension (153 for left and width, 244 for top and height) and
    multiplied by the target dimension in millimetres. *)
Theorem overlay_millimetre_fields
  (T : Template TemplateDesign) (w h : number) :
  let r := resolveTemplateDesign (front T) in
  let o := getPhotoOverlayParams resolveTemplateDesign T w h in
  leftMM o = x (photoPosition r) / 153 * w /\
  topMM o = y (photoPosition r) / 244 * h /\
  widthMM o = width (photoSize r) / 153 * w /\
  heightMM o = height (photoSize r) / 244 * h.
Proof. repeat split. Qed.

(** C2. The photo is visible exactly when [showPhoto] is not the value
    [false] and the pixel width and height are both strictly positive; a zero
    or negative width or height hides it whatever the other fields are, and
    so does [showPhoto = false]. *)
Theorem overlay_visible_iff
  (T : Template TemplateDesign) (w h : number) :
  let r := resolveTemplateDesign (front T) in
  let o := getPhotoOverlayParams resolveTemplateDesign T w h in
  (visible o = true <->
     showPhoto r <> Some false /\
     strictly_positive (width (photoSize r)) /\
     strictly_positive (height (photoSize r))) /\
  (zero_or_negative (width (photoSize r)) \/
   zero_or_negative (height (photoSize r)) ->
     visible o = false) /\
  (showPhoto r = Some false -> visible o = false).
Proof.
  intros r o. subst o r. unfold getPhotoOverlayParams; cbn [visible].
  split; [|split].
  - rewrite !andb_true_iff, not_false_iff, !js_gt_zero_iff. tauto.
  - intros [H | H]; apply js_gt_zero_or_negative in H; rewrite H;
      [apply andb_false_intro1, andb_false_intro2 | apply andb_false_intro2];
      reflexivity.
  - intros ->. reflexivity.
Qed.

(** C3. The pixel fields are the resolved position and size, unchanged, and
    the shape is the resolved shape, whichever of the three it is. *)
Theorem overlay_pixel_fields_and_shape
  (T : Template TemplateDesign) (w h : number) :
  let r := resolveTemplateDesign (front T) in
  let o := getPhotoOverlayParams resolveTemplateDesign T w h in
  leftPx o = x (photoPosition r) /\
  topPx o = y (photoPosition r) /\
  widthPx o = width (photoSize r) /\
  heightPx o = height (photoSize r) /\
  shape o = photoShape r /\
  (forall s, In s [circle; rounded; square] ->
     photoShape r = s -> shape o = s).
Proof. repeat split. intros s _ H. exact H. Qed.

(** C9. With [showPhoto] absent, the photo is visible as soon as the pixel
    width and height are strictly positive. *)
Theorem overlay_visible_when_flag_absent
  (T : Template TemplateDesign) (w h : number) :
  let r := resolveTemplateDesign (front T) in
  let o := getPhotoOverlayParams resolveTemplateDesign T w h in
  showPhoto r = None ->
  strictly_positive (width (photoSize r)) ->
  strictly_positive (height (photoSize r)) ->
  visible o = true.
Proof.
  intros r o Hs Hw Hh. subst o r.
  unfold getPhotoOverlayParams; cbn [visible].
  rewrite Hs. apply js_gt_zero_iff in Hw, Hh. rewrite Hw, Hh. reflexivity.
Qed.

(** C10. The pixel fields, the shape and the visibility do not depend on the
    target dimensions. *)
Theorem overlay_targets_only_reach_millimetres
  (T : Template TemplateDesign) (w1 h1 w2 h2 : number) :
  let o1 := getPhotoOverlayParams resolveTemplateDesign T w1 h1 in
  let o2 := getPhotoOverlayParams resolveTemplateDesign T w2 h2 in
  leftPx o1 = leftPx o2 /\
  topPx o1 = topPx o2 /\
  widthPx o1 = widthPx o2 /\
  heightPx o1 = heightPx o2 /\
  shape o1 = shape o2 /\
  visible o1 = visible o2.
Proof. repeat split. Qed.

(** C8. The worked example: position (10, 20), size (50, 80), circle,
    [showPhoto] true, on a 54 mm by 86 mm card. *)
Theorem overlay_worked_example (T : Template TemplateDesign) :
  resolveTemplateDesign (front T) = design 10 20 50 80 circle (Some true) ->
  let o := getPhotoOverlayParams resolveTemplateDesign T 54 86 in
  (leftMM o = 10 / 153 * 54 /\ two_decimals (leftMM o) 353) /\
  (topMM o = 20 / 244 * 86 /\ two_decimals (topMM o) 705) /\
  (widthMM o = 50 / 153 * 54 /\ two_decimals (widthMM o) 1765) /\
  (heightMM o = 80 / 244 * 86 /\ two_decimals (heightMM o) 2820) /\
  shape o = circle /\
  visible o = true.
Proof.
  intros H o. subst o. unfold getPhotoOverlayParams. rewrite H.
  cbn [design photoPosition photoSize photoShape showPhoto x y width height
       leftMM topMM widthMM heightMM shape visible].
  repeat split; try reflexivity;
    (eexists; split; [vm_compute; reflexivity | split; vm_compute; congruence]).
Qed.

End OverlayFacts.

Lemma overlay_visible_when_flag_absent_witness :
  let T := fixture (design 10 20 50 80 circle None) in
  showPhoto (front T) = None /\
  strictly_positive (width (photoSize (front T))) /\
  strictly_positive (height (photoSize (front T))) /\
  visible (getPhotoOverlayParams (fun d => d) T 54 86) = true.
Proof.
  split; [reflexivity|]. split; [exact I|]. split; [exact I|].
  apply (overlay_visible_when_flag_absent ResolvedDesign (fun d => d)
           (fixture (design 10 20 50 80 circle None)) 54 86).
  - reflexivity.
  - exact I.
  - exact I.
Defined.

Lemma overlay_worked_example_witness :
  leftMM (getPhotoOverlayParams (fun d => d)
            (fixture (design 10 20 50 80 circle (Some true))) 54 86)
  = 10 / 153 * 54.
Proof.
  apply (overlay_worked_example ResolvedDesign (fun d => d)
           (fixture (design 10 20 50 80 circle (Some true)))).
  reflexivity.
Defined.

(** ** Doubling in binary64

    Multiplying by two only moves the exponent; the lemmas below establish
    it on the specification of the binary64 operations. *)

Section BinaryRounding.

Local Open Scope Z_scope.

Lemma Zdigits2_nonneg (m : Z) : 0 <= Zdigits2 m.
Proof. destruct m; simpl; lia. Qed.

Lemma shr_fexp_succ (m e : Z) (l : location) :
  emin <= Zdigits2 m + e - prec ->
  shr_fexp prec emax m (e + 1) l
  = (fst (shr_fexp prec emax m e l), snd (shr_fexp prec emax m e l) + 1).
Proof.
  intros H. unfold shr_fexp, fexp.
  rewrite !Z.max_l by lia.
  replace (Zdigits2 m + (e + 1) - prec - (e + 1)) with (Zdigits2 m + e - prec - e) by lia.
  unfold shr. destruct (Zdigits2 m + e - prec - e); simpl; f_equal; lia.
Qed.

Lemma Prim2SF_two : Prim2SF 2%float = SF_two.
Proof. reflexivity. Qed.

Lemma double_normal (s : bool) (m : positive) (e : Z) :
  digits2_pos m = 53%positive -> emin <= e ->
  SF64mul SF_two (S754_finite s m e) = SF_double (S754_finite s m e).
Proof.
  intros D He. unfold SF64mul, SF_two, SFmul, binary_round_aux.
  cbn [xorb].
  change (Z.pos (4503599627370496 * m)) with
    (Z.pos (Pos.iter xO m 52)).
  assert (D2 : Zdigits2 (Z.pos (Pos.iter xO m 52)) = 105).
  { cbn -[Pos.succ]. rewrite D. reflexivity. }
  unfold shr_fexp at 1. rewrite D2. unfold fexp.
  rewrite Z.max_l by (unfold emin, prec, emax in *; lia).
  replace (105 + (-51 + e) - prec - (-51 + e)) with 52 by (unfold prec; lia).
  unfold shr. 
  change (iter_pos shr_1 52 (shr_record_of_loc (Z.pos (Pos.iter xO m 52)) loc_Exact))
    with {| shr_m := Z.pos m; shr_r := false; shr_s := false |}.
  cbn [shr_m loc_of_shr_record round_nearest_even].
  unfold shr_fexp, fexp. cbn [Zdigits2]. rewrite D.
  rewrite Z.max_l by (unfold emin, prec, emax in *; lia).
  replace (53 + (-51 + e + 52) - prec - (-51 + e + 52)) with 0 by (unfold prec; lia).
  cbn [shr shr_record_of_loc shr_m].
  unfold SF_double. replace (-51 + e + 52) with (e + 1) by lia. reflexivity.
Qed.

Lemma digits2_pos_size (m : positive) : digits2_pos m = Pos.size m.
Proof. induction m; simpl; congruence. Qed.

Lemma digits2_pos_bounds (m : positive) :
  2 ^ (Z.pos (digits2_pos m) - 1) <= Z.pos m < 2 ^ Z.pos (digits2_pos m).
Proof.
  rewrite digits2_pos_size.
  pose proof (Pos.size_gt m) as G. pose proof (Pos.size_le m) as L.
  apply Pos2Z.pos_lt_pos in G. apply Pos2Z.pos_le_pos in L.
  rewrite Pos2Z.inj_pow in G, L.
  assert (E : 2 ^ Z.pos (Pos.size m) = 2 * 2 ^ (Z.pos (Pos.size m) - 1)).
  { rewrite <- Z.pow_succ_r by lia. f_equal. lia. }
  assert (E2 : Z.pos m~0 = 2 * Z.pos m) by lia.
  lia.
Qed.

Lemma zero_inv (a : number) :
  (a =? 0)%float = true -> exists s, Prim2SF a = S754_zero s.
Proof.
  rewrite eqb_spec. change (Prim2SF 0%float) with (S754_zero false).
  destruct (Prim2SF a) as [s|s| |s m e]; try discriminate.
  - intros _. now exists s.
  - destruct s; discriminate.
  - destruct s; discriminate.
Qed.

End BinaryRounding.

(** C4, as stated, fails when the doubled target overflows: with the photo
    at the left edge (pixel 0) and a target width of 2^1023, the doubled
    target is Infinity and the left millimetre field is 0 * Infinity = NaN,
    while twice the original field is 0. *)
Lemma overlay_doubling_counterexample :
  let T := fixture (design 0 20 50 80 circle (Some true)) in
  let o1 := getPhotoOverlayParams (fun d => d) T 0x1p1023 86 in
  let o2 := getPhotoOverlayParams (fun d => d) T (2 * 0x1p1023) (2 * 86) in
  leftMM o2 = nan /\ 2 * leftMM o1 = 0 /\ ~ doubles_millimetres o2 o1.
Proof.
  split; [reflexivity|]. split; [reflexivity|].
  intros [H _]. apply (f_equal classify) in H. vm_compute in H. discriminate H.
Qed.

(** * Properties of the diagnostic *)

(** ** Strings *)

Lemma startsWith_iff (s prefix : js_string) :
  startsWith s prefix = true <-> begins_with s prefix.
Proof.
  revert s. induction prefix as [|p prefix IH]; intros s.
  - split; [intros _; now exists s | reflexivity].
  - destruct s as [|c s]; simpl.
    + split; [discriminate | intros [rest H]; discriminate].
    + rewrite andb_true_iff, N.eqb_eq, IH. split.
      * intros [-> [rest ->]]. now exists rest.
      * intros [rest H]. injection H as -> ->. split; [reflexivity | now exists rest].
Qed.

Lemma begins_with_app (s p q : js_string) :
  begins_with s (p ++ q) -> begins_with s p.
Proof. intros [rest ->]. exists (q ++ rest). now rewrite app_assoc. Qed.

(** The PNG test refines the data URL test. *)
Lemma png_prefix_refines (s : js_string) :
  startsWith s (lit "data:image/png") = true ->
  startsWith s (lit "data:image/") = true.
Proof.
  rewrite !startsWith_iff.
  change (lit "data:image/png") with (lit "data:image/" ++ lit "png").
  apply begins_with_app.
Qed.

(** ** Rounding *)

Lemma Math_round_div_1024 (z : Z) :
  Math_round (inject_Z z / 1024) = ((2 * z + 1024) / 2048)%Z.
Proof.
  unfold Math_round.
  rewrite (Qfloor_comp _ ((2 * z + 1024) # 2048)).
  - reflexivity.
  - unfold Qeq, Qplus, Qdiv, Qmult, Qinv, inject_Z. cbn [Qnum Qden]. lia.
Qed.

Lemma Math_round_nearest (n : nat) :
  nearest_KB n (Math_round (inject_Z (Z.of_nat n) / 1024)).
Proof.
  unfold nearest_KB. rewrite Math_round_div_1024.
  pose proof (Z.div_mod (2 * Z.of_nat n + 1024) 2048 ltac:(lia)) as E.
  pose proof (Z.mod_pos_bound (2 * Z.of_nat n + 1024) 2048 ltac:(lia)) as B.
  lia.
Qed.

(** ** The two outcomes *)

Lemma verifyPhotoSource_absent (name templateName : js_string) (c : Console)
  (payload : option js_string) :
  payload = None \/ payload = Some [] ->
  verifyPhotoSource name payload templateName c
  = (tt, c ++ [{| level := Warn;
                  text := lit "[PHOTO-VERIFY] " ++ name ++ lit ": NO PHOTO "
                          ++ em_dash
                          ++ lit " export will have blank photo area" |}]).
Proof. intros [-> | ->]; reflexivity. Qed.

Lemma verifyPhotoSource_present (name templateName : js_string) (c : Console)
  (u : code_unit) (rest : js_string) :
  let payload := u :: rest in
  verifyPhotoSource name (Some payload) templateName c
  = (tt, c ++ info_block name templateName
                (startsWith payload (lit "data:image/"))
                (startsWith payload (lit "data:image/png"))
                (Math_round (inject_Z (Z.of_nat (List.length payload)) / 1024))).
Proof.
  intros payload. subst payload.
  unfold verifyPhotoSource, bind, console_log, info_block, info.
  cbv beta iota zeta.
  rewrite <- !(app_assoc c). reflexivity.
Qed.

(** What the lines of the block say. *)
Lemma block_wording :
  contains (data_url_line true) (lit "Is data URL: true") /\
  contains (data_url_line false) (lit "Is data URL: false") /\
  contains (format_line true) (lit "PNG") /\
  contains (format_line false) (lit "JPEG/other") /\
  contains (size_line 0) (lit "Size: 0 KB") /\
  contains (source_line true) (lit "PROCESSED") /\
  contains (source_line false) (lit "RAW URL " ++ em_dash ++ lit " possible bug").
Proof.
  repeat split.
  - exists (lit "  " ++ tee ++ lit " "), []. reflexivity.
  - exists (lit "  " ++ tee ++ lit " "), []. reflexivity.
  - exists (lit "  " ++ tee ++ lit " Format: "), (lit " (supports transparency)").
    reflexivity.
  - exists (lit "  " ++ tee ++ lit " Format: "), []. reflexivity.
  - exists (lit "  " ++ tee ++ lit " "), []. reflexivity.
  - exists (lit "  " ++ elbow ++ lit " Source: "), (lit " (bg-removed + cropped)").
    reflexivity.
  - exists (lit "  " ++ elbow ++ lit " Source: " ++ warning_sign ++ lit " "), [].
    reflexivity.
Qed.

(** C5. An absent payload ([undefined] or the empty string) adds exactly one
    entry to the console, a warning whose text contains the subject name and
    "NO PHOTO" and mentions the blank photo area; no informational entry
    follows, and the payload is not looked at any further. *)
Theorem verify_absent_payload_warns_once
  (name templateName : js_string) (payload : option js_string) (c : Console) :
  payload = None \/ payload = Some [] ->
  exists line,
    verifyPhotoSource name payload templateName c
    = (tt, c ++ [{| level := Warn; text := line |}]) /\
    contains line name /\
    contains line (lit "NO PHOTO") /\
    contains line (lit "blank photo area").
Proof.
  intros H. eexists. split; [apply verifyPhotoSource_absent, H|].
  repeat split.
  - exists (lit "[PHOTO-VERIFY] "),
      (lit ": NO PHOTO " ++ em_dash ++ lit " export will have blank photo area").
    reflexivity.
  - exists (lit "[PHOTO-VERIFY] " ++ name ++ lit ": "),
      (lit " " ++ em_dash ++ lit " export will have blank photo area").
    rewrite <- !app_assoc. reflexivity.
  - exists (lit "[PHOTO-VERIFY] " ++ name ++ lit ": NO PHOTO " ++ em_dash
            ++ lit " export will have "), [].
    rewrite <- !app_assoc. reflexivity.
Qed.

Lemma verify_absent_payload_witness :
  exists line,
    verifyPhotoSource (lit "Alice") None (lit "Classic") []
    = (tt, [] ++ [{| level := Warn; text := line |}]) /\
    contains line (lit "Alice") /\
    contains line (lit "NO PHOTO") /\
    contains line (lit "blank photo area").
Proof.
  apply (verify_absent_payload_warns_once (lit "Alice") (lit "Classic") None []).
  left. reflexivity.
Defined.

(** C6. A non-empty payload produces the informational block, in which the
    data URL flag is true exactly when the payload begins with "data:image/",
    the PNG flag exactly when it begins with "data:image/png" (which implies
    the former), the size is an integer nearest to the length over 1024, and
    the source line reads PROCESSED for a data URL and the raw URL warning
    otherwise; the two sample payloads come out as the specification says. *)
Theorem verify_classifies_payload :
  (forall (name templateName : js_string) (c : Console)
          (u : code_unit) (rest : js_string),
     let payload := u :: rest in
     exists (isDataUrl isPNG : bool) (sizeKB : Z),
       verifyPhotoSource name (Some payload) templateName c
       = (tt, c ++ info_block name templateName isDataUrl isPNG sizeKB) /\
       (isDataUrl = true <-> begins_with payload (lit "data:image/")) /\
       (isPNG = true <-> begins_with payload (lit "data:image/png")) /\
       (isPNG = true -> isDataUrl = true) /\
       nearest_KB (List.length payload) sizeKB) /\
  (forall name templateName c,
     verifyPhotoSource name (Some (lit "data:image/png;base64,AAAA")) templateName c
     = (tt, c ++ info_block name templateName true true 0)) /\
  (forall name templateName c,
     verifyPhotoSource name (Some (lit "https://example.com/photo.jpg")) templateName c
     = (tt, c ++ info_block name templateName false false 0)) /\
  contains (format_line true) (lit "PNG") /\
  contains (format_line false) (lit "JPEG/other") /\
  contains (size_line 0) (lit "Size: 0 KB") /\
  contains (source_line true) (lit "PROCESSED") /\
  contains (source_line false) (lit "RAW URL " ++ em_dash ++ lit " possible bug").
Proof.
  split; [|split; [|split]].
  - intros name templateName c u rest payload.
    exists (startsWith payload (lit "data:image/")),
           (startsWith payload (lit "data:image/png")),
           (Math_round (inject_Z (Z.of_nat (List.length payload)) / 1024)).
    split; [apply verifyPhotoSource_present|].
    split; [apply startsWith_iff|].
    split; [apply startsWith_iff|].
    split; [apply png_prefix_refines | apply Math_round_nearest].
  - intros. apply (verifyPhotoSource_present name templateName c).
  - intros. apply (verifyPhotoSource_present name templateName c).
  - pose proof block_wording. tauto.
Qed.

(** C7. Whatever the subject name, the payload (absent, empty or any string)
    and the template name, the diagnostic returns, keeps what the console
    already held and adds either the single warning or the six informational
    entries; a payload that is not a data URL gets the raw URL source line. *)
Theorem verify_never_fails
  (name templateName : js_string) (payload : option js_string) (c : Console) :
  exists out,
    verifyPhotoSource name payload templateName c = (tt, c ++ out) /\
    ((exists line, out = [{| level := Warn; text := line |}]) \/
     (exists isDataUrl isPNG sizeKB,
        out = info_block name templateName isDataUrl isPNG sizeKB)) /\
    (forall p, payload = Some p -> p <> [] ->
       ~ begins_with p (lit "data:image/") ->
       exists isPNG sizeKB,
         out = info_block name templateName false isPNG sizeKB /\
         last out (info []) = info (source_line false)).
Proof.
  destruct payload as [[|u rest]|].
  - eexists. split; [apply verifyPhotoSource_absent; now right|].
    split; [left; eexists; reflexivity|]. intros p [= <-] H. now elim H.
  - eexists. split; [apply verifyPhotoSource_present|].
    split; [right; do 3 eexists; reflexivity|].
    intros p [= <-] _ H.
    destruct (startsWith (u :: rest) (lit "data:image/")) eqn:E.
    + apply startsWith_iff in E. contradiction.
    + do 2 eexists. split; reflexivity.
  - eexists. split; [apply verifyPhotoSource_absent; now left|].
    split; [left; eexists; reflexivity|]. intros p [=].
Qed.

(** * Further properties of the diagnostic *)

(** [Math.round (n / 1024)] is the integer quotient of [n + 512] by 1024. *)
Lemma Math_round_half_up (z : Z) :
  Math_round (inject_Z z / 1024) = ((z + 512) / 1024)%Z.
Proof.
  rewrite Math_round_div_1024.
  replace (2 * z + 1024)%Z with (2 * (z + 512))%Z by lia.
  change 2048%Z with (2 * 1024)%Z.
  apply Z.div_mul_cancel_l; lia.
Qed.

(** X1. The size shown for a non-empty payload of [n] code units is the
    integer quotient of [n + 512] by 1024: it is never negative, it is 0
    exactly for payloads shorter than 512 code units (a tie at 512 goes up to
    1), and it is off from n / 1024 by at most one half. *)
Theorem verify_size_is_half_up_quotient
  (name templateName : js_string) (c : Console)
  (u : code_unit) (rest : js_string) :
  let payload := u :: rest in
  let n := Z.of_nat (List.length payload) in
  exists isDataUrl isPNG sizeKB,
    verifyPhotoSource name (Some payload) templateName c
    = (tt, c ++ info_block name templateName isDataUrl isPNG sizeKB) /\
    sizeKB = ((n + 512) / 1024)%Z /\
    (0 <= sizeKB)%Z /\
    (sizeKB = 0%Z <-> (n < 512)%Z) /\
    (1024 * sizeKB - 512 <= n < 1024 * sizeKB + 512)%Z.
Proof.
  intros payload n.
  exists (startsWith payload (lit "data:image/")),
         (startsWith payload (lit "data:image/png")),
         (Math_round (inject_Z n / 1024)).
  split; [apply verifyPhotoSource_present|].
  rewrite Math_round_half_up.
  assert (Hn : (0 <= n)%Z) by (unfold n; lia).
  pose proof (Z.div_mod (n + 512) 1024 ltac:(lia)) as E.
  pose proof (Z.mod_pos_bound (n + 512) 1024 ltac:(lia)) as B.
  split; [reflexivity|]. split; [apply Z.div_pos; lia|].
  split; [|lia].
  split; intros H.
  - rewrite H in E. lia.
  - apply Z.div_small. lia.
Qed.

(** X5. A data URL of any image type other than the exact lower-case
    "png" (jpeg, webp, gif, "PNG" in capitals, ...) is reported as a data
    URL of format JPEG/other whose source is PROCESSED. *)
Theorem verify_other_image_types
  (name templateName : js_string) (c : Console) (rest : js_string) :
  ~ begins_with rest (lit "png") ->
  exists sizeKB,
    verifyPhotoSource name (Some (lit "data:image/" ++ rest)) templateName c
    = (tt, c ++ info_block name templateName true false sizeKB) /\
    contains (format_line false) (lit "JPEG/other") /\
    contains (source_line true) (lit "PROCESSED").
Proof.
  intros H.
  assert (D : startsWith (lit "data:image/" ++ rest) (lit "data:image/") = true).
  { apply startsWith_iff. now exists rest. }
  assert (P : startsWith (lit "data:image/" ++ rest) (lit "data:image/png") = false).
  { destruct (startsWith _ (lit "data:image/png")) eqn:E; [|reflexivity].
    exfalso. apply H. apply startsWith_iff in E. destruct E as [tl E].
    change (lit "data:image/png") with (lit "data:image/" ++ lit "png") in E.
    rewrite <- app_assoc in E. apply app_inv_head in E. now exists tl. }
  eexists. split.
  - change (lit "data:image/" ++ rest)
      with (N_of_ascii "d" :: (lit "ata:image/" ++ rest)) at 1.
    rewrite verifyPhotoSource_present.
    change (N_of_ascii "d" :: (lit "ata:image/" ++ rest))
      with (lit "data:image/" ++ rest).
    rewrite D, P. reflexivity.
  - pose proof block_wording. tauto.
Qed.

Lemma verify_other_image_types_witness :
  exists sizeKB,
    verifyPhotoSource (lit "Alice")
      (Some (lit "data:image/" ++ lit "jpeg;base64,/9j/")) (lit "Classic") []
    = (tt, [] ++ info_block (lit "Alice") (lit "Classic") true false sizeKB) /\
    contains (format_line false) (lit "JPEG/other") /\
    contains (source_line true) (lit "PROCESSED").
Proof.
  apply (verify_other_image_types (lit "Alice") (lit "Classic") []
           (lit "jpeg;base64,/9j/")).
  intros [tl E]. discriminate E.
Defined.

(** X6. The diagnostic never prints the payload: two non-empty payloads that
    agree on the two prefix tests and whose lengths round to the same number
    of kilobytes produce the same console output. *)
Theorem verify_output_hides_payload_content
  (name templateName : js_string) (c : Console)
  (u1 u2 : code_unit) (rest1 rest2 : js_string) :
  let p1 := u1 :: rest1 in
  let p2 := u2 :: rest2 in
  (begins_with p1 (lit "data:image/") <-> begins_with p2 (lit "data:image/")) ->
  (begins_with p1 (lit "data:image/png") <-> begins_with p2 (lit "data:image/png")) ->
  ((Z.of_nat (List.length p1) + 512) / 1024
   = (Z.of_nat (List.length p2) + 512) / 1024)%Z ->
  verifyPhotoSource name (Some p1) templateName c
  = verifyPhotoSource name (Some p2) templateName c.
Proof.
  intros p1 p2 Hd Hp Hs.
  unfold p1, p2. rewrite !verifyPhotoSource_present. fold p1 p2.
  rewrite !Math_round_half_up, Hs.
  assert (B : forall a b : bool, (a = true <-> b = true) -> a = b).
  { intros a b [H1 H2]. destruct a, b; auto. symmetry; auto. }
  rewrite (B (startsWith p1 (lit "data:image/")) (startsWith p2 (lit "data:image/")))
    by (rewrite !startsWith_iff; exact Hd).
  rewrite (B (startsWith p1 (lit "data:image/png"))
             (startsWith p2 (lit "data:image/png")))
    by (rewrite !startsWith_iff; exact Hp).
  reflexivity.
Qed.

Lemma verify_output_hides_payload_content_witness :
  verifyPhotoSource (lit "Alice") (Some (lit "data:image/png;base64,AAAA"))
    (lit "Classic") []
  = verifyPhotoSource (lit "Alice") (Some (lit "data:image/png;base64,QUJD"))
      (lit "Classic") [].
Proof.
  apply (verify_output_hides_payload_content (lit "Alice") (lit "Classic") []
           (N_of_ascii "d") (N_of_ascii "d")
           (lit "ata:image/png;base64,AAAA") (lit "ata:image/png;base64,QUJD")).
  - split; intros _; exists (lit "png;base64,AAAA") + exists (lit "png;base64,QUJD");
      reflexivity.
  - split; intros _; exists (lit ";base64,AAAA") + exists (lit ";base64,QUJD");
      reflexivity.
  - reflexivity.
Defined.

(** * Further properties of the overlay *)

(** ** Signs in binary64 *)

Section BinarySigns.

Local Open Scope Z_scope.

Lemma binary_round_aux_opp (s : bool) (m e : Z) (l : location) :
  binary_round_aux prec emax (negb s) m e l
  = SFopp (binary_round_aux prec emax s m e l).
Proof.
  unfold binary_round_aux.
  destruct (shr_fexp prec emax m e l) as [mrs' e'].
  destruct (shr_fexp prec emax _ e' loc_Exact) as [mrs'' e''].
  destruct (shr_m mrs''); try reflexivity.
  destruct (e'' <=? emax - prec); reflexivity.
Qed.

Lemma SFmul_opp_r (a w : spec_float) :
  SF64mul a (SFopp w) = SFopp (SF64mul a w).
Proof.
  unfold SF64mul, SFmul.
  destruct a as [sa|sa| |sa ma ea], w as [s|s| |s m e]; cbn [SFopp];
    try reflexivity; rewrite <- negb_xorb_r; try reflexivity.
  apply binary_round_aux_opp.
Qed.

(** [a * (-w) = -(a * w)], for all numbers. *)
Lemma mul_opp_r (a w : number) : (a * (- w))%float = (- (a * w))%float.
Proof.
  apply Prim2SF_inj. now rewrite opp_spec, !mul_spec, opp_spec, SFmul_opp_r.
Qed.

Lemma shr_1_nonneg (mrs : shr_record) : 0 <= shr_m mrs -> 0 <= shr_m (shr_1 mrs).
Proof.
  destruct mrs as [m r s]. simpl. destruct m as [|[p|p|]|[p|p|]]; simpl; lia.
Qed.

Lemma iter_pos_nonneg (n : positive) (mrs : shr_record) :
  0 <= shr_m mrs -> 0 <= shr_m (iter_pos shr_1 n mrs).
Proof.
  revert mrs. induction n as [n IH|n IH|]; intros mrs H; simpl.
  - apply IH, IH, shr_1_nonneg, H.
  - apply IH, IH, H.
  - apply shr_1_nonneg, H.
Qed.

Lemma shr_fexp_nonneg (m e : Z) (l : location) :
  0 <= m -> 0 <= shr_m (fst (shr_fexp prec emax m e l)).
Proof.
  intros H. unfold shr_fexp, shr.
  assert (H0 : 0 <= shr_m (shr_record_of_loc m l)) by (destruct l as [|[| |]]; exact H).
  destruct (fexp prec emax (Zdigits2 m + e) - e); simpl; try exact H0.
  apply iter_pos_nonneg, H0.
Qed.

Lemma round_nearest_even_nonneg (m : Z) (l : location) :
  0 <= m -> 0 <= round_nearest_even m l.
Proof.
  intros H. unfold round_nearest_even.
  destruct l as [|[| |]]; try lia. destruct (Z.even m); lia.
Qed.

(** Rounding a non-negative mantissa gives a number, with the sign asked. *)
Lemma binary_round_aux_sign (s : bool) (m e : Z) (l : location) :
  0 <= m -> SF_has_sign s (binary_round_aux prec emax s m e l).
Proof.
  intros H. unfold binary_round_aux.
  pose proof (shr_fexp_nonneg m e l H) as H1.
  destruct (shr_fexp prec emax m e l) as [mrs' e']. cbn [fst] in H1.
  pose proof (shr_fexp_nonneg _ e' loc_Exact
                (round_nearest_even_nonneg _ (loc_of_shr_record mrs') H1)) as H2.
  destruct (shr_fexp prec emax _ e' loc_Exact) as [mrs'' e'']. cbn [fst] in H2.
  destruct (shr_m mrs''); try lia; [reflexivity|].
  destruct (e'' <=? emax - prec); reflexivity.
Qed.

Lemma SFdiv_core_binary_nonneg (m1 : positive) (e1 : Z) (m2 : positive) (e2 : Z) :
  0 <= fst (fst (SFdiv_core_binary prec emax (Z.pos m1) e1 (Z.pos m2) e2)).
Proof.
  unfold SFdiv_core_binary.
  set (e' := Z.min _ _). set (sh := e1 - e2 - e').
  set (m' := match sh with Z.pos _ => Z.shiftl (Z.pos m1) sh | 0 => Z.pos m1
             | Z.neg _ => 0 end).
  assert (Hm : 0 <= m').
  { unfold m'. destruct sh; try lia. apply Z.shiftl_nonneg. lia. }
  assert (Hq : fst (Z.div_eucl m' (Z.pos m2)) = m' / Z.pos m2) by reflexivity.
  destruct (Z.div_eucl m' (Z.pos m2)) as [q r]. cbn [fst] in *.
  rewrite Hq. apply Z.div_pos; lia.
Qed.

Lemma strictly_positive_inv (v : number) :
  strictly_positive v ->
  Prim2SF v = S754_infinity false \/ exists m e, Prim2SF v = S754_finite false m e.
Proof.
  unfold strictly_positive. rewrite classify_spec.
  unfold SF64classify, SFclassify.
  destruct (Prim2SF v) as [[|]|[|]| |[|] m e]; try tauto.
  - destruct (Z.pos (digits2_pos m) =? prec); tauto.
  - intros _. right. now exists m, e.
Qed.

Lemma finite_number_inv (v : number) :
  finite_number v ->
  (exists s, Prim2SF v = S754_zero s) \/ exists s m e, Prim2SF v = S754_finite s m e.
Proof.
  unfold finite_number. rewrite ltb_spec, abs_spec.
  change (Prim2SF infinity) with (S754_infinity false).
  destruct (Prim2SF v) as [s|s| |s m e]; try discriminate.
  - intros _. left. now exists s.
  - intros _. right. now exists s, m, e.
Qed.

Lemma zero_le_of_sign (v : number) :
  SF_has_sign false (Prim2SF v) -> (0 <=? v)%float = true.
Proof.
  rewrite leb_spec. change (Prim2SF 0%float) with (S754_zero false).
  destruct (Prim2SF v) as [s|s| |s m e]; simpl; try tauto; intros ->; reflexivity.
Qed.

(** A strictly positive pixel size over a reference dimension, times a
    strictly positive finite target, is never negative and never NaN. *)
Lemma scaled_size_nonneg (px ref w : number) :
  strictly_positive px -> strictly_positive ref -> finite_number ref ->
  strictly_positive w -> finite_number w ->
  (0 <=? px / ref * w)%float = true.
Proof.
  intros Hpx Href Fref Hw Fw. apply zero_le_of_sign.
  destruct (strictly_positive_inv ref Href) as [E|(mr & er & Er)].
  { destruct (finite_number_inv ref Fref) as [[s E']|(s & m & e & E')]; congruence. }
  destruct (strictly_positive_inv w Hw) as [E|(mw & ew & Ew)].
  { destruct (finite_number_inv w Fw) as [[s E']|(s & m & e & E')]; congruence. }
  assert (Ha : SF_has_sign false (Prim2SF (px / ref)%float)).
  { rewrite div_spec, Er.
    destruct (strictly_positive_inv px Hpx) as [->|(mx & ex & ->)]; [reflexivity|].
    unfold SF64div, SFdiv.
    pose proof (SFdiv_core_binary_nonneg mx ex mr er) as Hq.
    destruct (SFdiv_core_binary prec emax (Z.pos mx) ex (Z.pos mr) er) as [[q e'] l].
    apply binary_round_aux_sign. exact Hq. }
  rewrite mul_spec, Ew.
  destruct (Prim2SF (px / ref)%float) as [s|s| |s m e]; simpl in Ha; try tauto; subst s.
  - reflexivity.
  - reflexivity.
  - unfold SF64mul, SFmul. apply binary_round_aux_sign. lia.
Qed.

(** A zero pixel value scales to zero on any finite target. *)
Lemma scaled_zero (px ref w : number) :
  (px =? 0)%float = true ->
  (exists s m e, Prim2SF ref = S754_finite s m e) ->
  finite_number w ->
  (px / ref * w =? 0)%float = true.
Proof.
  intros Hpx (sr & mr & er & Er) Fw.
  destruct (zero_inv px Hpx) as [s Ex].
  rewrite eqb_spec, mul_spec, div_spec, Ex, Er.
  change (Prim2SF 0%float) with (S754_zero false).
  destruct (finite_number_inv w Fw) as [[sw ->]|(sw & mw & ew & ->)]; reflexivity.
Qed.

End BinarySigns.

(** ** Exact doubling *)

Section ExactDoubling.

Local Open Scope Z_scope.

Lemma Zdigits2_bounds (m : Z) :
  0 < m -> 2 ^ (Zdigits2 m - 1) <= m < 2 ^ Zdigits2 m.
Proof.
  destruct m as [|p|p]; try lia. intros _. apply digits2_pos_bounds.
Qed.

Lemma Zdigits2_le_of_lt_pow (m k : Z) :
  0 <= m < 2 ^ k -> 0 <= k -> Zdigits2 m <= k.
Proof.
  intros [H0 H] Hk. destruct (Z.eq_dec m 0) as [->|N]; [exact Hk|].
  pose proof (Zdigits2_bounds m ltac:(lia)) as [L _].
  destruct (Z_le_gt_dec (Zdigits2 m) k) as [G|G]; [exact G|exfalso].
  assert (2 ^ k <= 2 ^ (Zdigits2 m - 1)) by (apply Z.pow_le_mono_r; lia).
  lia.
Qed.

Lemma Zdigits2_ge_of_pow_le (m k : Z) :
  2 ^ (k - 1) <= m -> 1 <= k -> k <= Zdigits2 m.
Proof.
  intros H Hk.
  assert (0 < 2 ^ (k - 1)) by (apply Z.pow_pos_nonneg; lia).
  pose proof (Zdigits2_bounds m ltac:(lia)) as [_ U].
  pose proof (Zdigits2_nonneg m).
  destruct (Z_le_gt_dec k (Zdigits2 m)) as [G|G]; [exact G|exfalso].
  assert (2 ^ Zdigits2 m <= 2 ^ (k - 1)) by (apply Z.pow_le_mono_r; lia).
  lia.
Qed.

Lemma Zdigits2_mono (a b : Z) : 0 <= a <= b -> Zdigits2 a <= Zdigits2 b.
Proof.
  intros [H0 H]. destruct (Z.eq_dec a 0) as [->|N]; [apply Zdigits2_nonneg|].
  pose proof (Zdigits2_bounds a ltac:(lia)) as [L _].
  apply Zdigits2_ge_of_pow_le; [lia|].
  destruct a; simpl; lia.
Qed.

Lemma shr_1_half (mrs : shr_record) :
  0 <= shr_m mrs -> shr_m (shr_1 mrs) = shr_m mrs / 2.
Proof.
  destruct mrs as [m r s]. cbn [shr_m]. intros H.
  rewrite <- Z.div2_div.
  destruct m as [|[p|p|]|p]; try reflexivity. lia.
Qed.

Lemma iter_pos_shr_m (n : positive) (mrs : shr_record) :
  0 <= shr_m mrs ->
  shr_m (iter_pos shr_1 n mrs) = shr_m mrs / 2 ^ Z.pos n.
Proof.
  revert mrs. induction n as [n IH|n IH|]; intros mrs H; cbn [iter_pos].
  - rewrite IH by (apply iter_pos_nonneg, shr_1_nonneg, H).
    rewrite IH by (apply shr_1_nonneg, H).
    rewrite shr_1_half by exact H.
    assert (P : 0 < 2 ^ Z.pos n) by (apply Z.pow_pos_nonneg; lia).
    rewrite !Z.div_div by lia.
    f_equal.
    assert (E : Z.pos n~1 = 1 + Z.pos n + Z.pos n) by lia.
    rewrite E, !Z.pow_add_r by lia. change (2 ^ 1) with 2. lia.
  - rewrite IH by (apply iter_pos_nonneg, H).
    rewrite IH by exact H.
    assert (P : 0 < 2 ^ Z.pos n) by (apply Z.pow_pos_nonneg; lia).
    rewrite Z.div_div by lia.
    f_equal.
    assert (E : Z.pos n~0 = Z.pos n + Z.pos n) by lia.
    rewrite E, Z.pow_add_r by lia. reflexivity.
  - rewrite shr_1_half by exact H. reflexivity.
Qed.

Lemma shr_record_of_loc_m (m : Z) (l : location) :
  shr_m (shr_record_of_loc m l) = m.
Proof. destruct l as [|[| |]]; reflexivity. Qed.

Lemma round_nearest_even_bounds (m : Z) (l : location) :
  m <= round_nearest_even m l <= m + 1.
Proof.
  unfold round_nearest_even. destruct l as [|[| |]]; try lia.
  destruct (Z.even m); lia.
Qed.

(** In the normal range the first shift keeps the magnitude: the digits lost
    by the mantissa are gained by the exponent. *)
Lemma shr_fexp_normal_digits (M E : Z) (l : location) :
  0 < M -> emin <= Zdigits2 M + E - prec ->
  Zdigits2 M + E
  <= Zdigits2 (shr_m (fst (shr_fexp prec emax M E l)))
     + snd (shr_fexp prec emax M E l).
Proof.
  intros HM H. unfold shr_fexp, fexp. rewrite Z.max_l by lia.
  pose proof (Zdigits2_bounds M HM) as [L _].
  unfold shr. destruct (Zdigits2 M + E - prec - E) as [|p|p] eqn:N; cbn [fst snd];
    rewrite ?shr_record_of_loc_m; try lia.
  rewrite iter_pos_shr_m by (rewrite shr_record_of_loc_m; lia).
  rewrite shr_record_of_loc_m.
  assert (P : 0 < 2 ^ Z.pos p) by (apply Z.pow_pos_nonneg; lia).
  assert (D : prec <= Zdigits2 (M / 2 ^ Z.pos p)).
  { apply Zdigits2_ge_of_pow_le; [|unfold prec; lia].
    apply Z.div_le_lower_bound; [exact P|].
    rewrite <- Z.pow_add_r by (unfold prec; lia).
    replace (Z.pos p + (prec - 1)) with (Zdigits2 M - 1) by lia. exact L. }
  lia.
Qed.

(** Raising the exponent by one doubles the rounded product, as soon as the
    product is rounded in the normal range. *)
Lemma binary_round_aux_double (sx : bool) (M E : Z) (l : location) :
  0 < M -> emin <= Zdigits2 M + E - prec ->
  binary_round_aux prec emax sx M (E + 1) l
  = SF_double (binary_round_aux prec emax sx M E l).
Proof.
  intros HM H. unfold binary_round_aux.
  rewrite shr_fexp_succ by exact H.
  pose proof (shr_fexp_normal_digits M E l HM H) as G1.
  pose proof (shr_fexp_nonneg M E l ltac:(lia)) as G0.
  destruct (shr_fexp prec emax M E l) as [mrs' e'] eqn:S1. cbn [fst snd] in *.
  set (m1 := round_nearest_even (shr_m mrs') (loc_of_shr_record mrs')).
  pose proof (round_nearest_even_bounds (shr_m mrs') (loc_of_shr_record mrs')) as B.
  fold m1 in B.
  pose proof (Zdigits2_mono (shr_m mrs') m1 ltac:(lia)) as D1.
  rewrite shr_fexp_succ by lia.
  destruct (shr_fexp prec emax m1 e' loc_Exact) as [mrs'' e''] eqn:S2. cbn [fst snd].
  destruct (shr_m mrs''); try reflexivity.
  unfold SF_double.
  destruct (e'' <=? emax - prec) eqn:L1, (e'' + 1 <=? emax - prec) eqn:L2;
    try reflexivity; lia.
Qed.

(** Below the normal range the result is zero or sits on the lowest
    exponent, with a mantissa of at most 2^52. *)
Lemma binary_round_aux_low (sx : bool) (M E : Z) (l : location) :
  0 < M -> Zdigits2 M + E - prec < emin -> E < emin ->
  match binary_round_aux prec emax sx M E l with
  | S754_zero _ => True
  | S754_finite _ m e => e = emin /\ Z.pos m <= 2 ^ 52
  | _ => False
  end.
Proof.
  intros HM H HE. unfold binary_round_aux, shr_fexp at 1, fexp.
  rewrite Z.max_r by lia.
  pose proof (Zdigits2_bounds M HM) as [_ U].
  unfold shr. destruct (emin - E) as [|p|p] eqn:N; try lia.
  cbn [shr_m].
  set (mrs' := iter_pos shr_1 p (shr_record_of_loc M l)).
  assert (Hm : shr_m mrs' = M / 2 ^ Z.pos p).
  { unfold mrs'. rewrite iter_pos_shr_m by (rewrite shr_record_of_loc_m; lia).
    now rewrite shr_record_of_loc_m. }
  assert (P : 0 < 2 ^ Z.pos p) by (apply Z.pow_pos_nonneg; lia).
  assert (B0 : 0 <= shr_m mrs' < 2 ^ 52).
  { rewrite Hm. split; [apply Z.div_pos; lia|].
    apply Z.div_lt_upper_bound; [exact P|].
    rewrite <- Z.pow_add_r by lia.
    apply Z.lt_le_trans with (1 := U). apply Z.pow_le_mono_r; unfold prec in *; lia. }
  set (m1 := round_nearest_even (shr_m mrs') (loc_of_shr_record mrs')).
  pose proof (round_nearest_even_bounds (shr_m mrs') (loc_of_shr_record mrs')) as B.
  fold m1 in B.
  assert (D1 : Zdigits2 m1 <= prec).
  { apply Zdigits2_le_of_lt_pow; [|unfold prec; lia].
    unfold prec. change (2 ^ 53) with (2 * 2 ^ 52). lia. }
  pose proof (Zdigits2_nonneg m1) as D0.
  replace (E + Z.pos p) with emin by lia.
  unfold shr_fexp, fexp. rewrite Z.max_r by lia.
  replace (emin - emin) with 0 by lia. cbn [shr shr_record_of_loc shr_m].
  destruct m1 as [|q|q]; [exact I| |lia].
  change (emin <=? emax - prec) with true. cbn iota. split; [reflexivity|lia].
Qed.

Lemma iter_pos_comm {A : Type} (f : A -> A) (n : positive) (a : A) :
  iter_pos f n (f a) = f (iter_pos f n a).
Proof.
  revert a. induction n as [n IH|n IH|]; intros a; cbn [iter_pos].
  - now rewrite !IH.
  - now rewrite !IH.
  - reflexivity.
Qed.

Lemma iter_pos_succ {A : Type} (f : A -> A) (n : positive) (a : A) :
  iter_pos f (Pos.succ n) a = iter_pos f n (f a).
Proof.
  revert a. induction n as [n IH|n IH|]; intros a; cbn [iter_pos Pos.succ].
  - rewrite !IH. now rewrite <- !iter_pos_comm.
  - reflexivity.
  - reflexivity.
Qed.

(** A mantissa with a trailing zero bit is the half mantissa one exponent up. *)
Lemma binary_round_aux_even (sx : bool) (M : positive) (E : Z) :
  prec <= Z.pos (digits2_pos M) ->
  emin <= Z.pos (digits2_pos M) + (E + 1) - prec ->
  binary_round_aux prec emax sx (Z.pos M~0) E loc_Exact
  = binary_round_aux prec emax sx (Z.pos M) (E + 1) loc_Exact.
Proof.
  intros D H. unfold binary_round_aux.
  assert (S : shr_fexp prec emax (Z.pos M~0) E loc_Exact
              = shr_fexp prec emax (Z.pos M) (E + 1) loc_Exact).
  { unfold shr_fexp, fexp. cbn [Zdigits2 digits2_pos].
    rewrite Pos2Z.inj_succ. rewrite !Z.max_l by lia.
    unfold shr, shr_record_of_loc.
    destruct (Z.pos (digits2_pos M) + (E + 1) - prec - (E + 1)) as [|p|p] eqn:N;
      try lia.
    - replace (Z.succ (Z.pos (digits2_pos M)) + E - prec - E) with 1 by lia.
      cbn [iter_pos shr_1 orb]. f_equal.
    - replace (Z.succ (Z.pos (digits2_pos M)) + E - prec - E)
        with (Z.pos (Pos.succ p)) by lia.
      rewrite iter_pos_succ. cbn [shr_1 orb]. f_equal. lia. }
  rewrite S. reflexivity.
Qed.

Lemma valid_binary_inv (s : bool) (m : positive) (e : Z) :
  valid_binary (S754_finite s m e) = true ->
  emin <= e /\
  (digits2_pos m = 53%positive \/ (e = emin /\ Z.pos (digits2_pos m) < prec)).
Proof.
  unfold SpecFloat.valid_binary, bounded, canonical_mantissa, fexp.
  rewrite andb_true_iff, Z.eqb_eq. intros [C _].
  unfold prec, emin, emax in *.
  split; [lia|].
  destruct (Z.eq_dec (Z.pos (digits2_pos m)) 53) as [E|N].
  - left. congruence.
  - right. lia.
Qed.

(** Twice a subnormal number: the mantissa is doubled in place. *)
Lemma double_subnormal (s : bool) (m : positive) :
  Z.pos (digits2_pos m) < prec ->
  SF64mul SF_two (S754_finite s m emin) = S754_finite s m~0 emin.
Proof.
  intros D. unfold SF64mul, SF_two, SFmul, binary_round_aux.
  cbn [xorb].
  change (Z.pos (4503599627370496 * m)) with (Z.pos (Pos.iter xO m 52)).
  assert (D2 : Zdigits2 (Z.pos (Pos.iter xO m 52)) = Z.pos (digits2_pos m) + 52).
  { cbn -[Pos.succ]. lia. }
  unfold shr_fexp at 1. rewrite D2. unfold fexp.
  rewrite Z.max_r by (unfold emin, prec, emax in *; lia).
  replace (emin - (-51 + emin)) with 51 by lia.
  unfold shr.
  change (iter_pos shr_1 51 (shr_record_of_loc (Z.pos (Pos.iter xO m 52)) loc_Exact))
    with {| shr_m := Z.pos m~0; shr_r := false; shr_s := false |}.
  cbn [shr_m loc_of_shr_record round_nearest_even].
  unfold shr_fexp, fexp. cbn [Zdigits2 digits2_pos]. rewrite Pos2Z.inj_succ.
  rewrite Z.max_r by (unfold emin, prec, emax in *; lia).
  replace (-51 + emin + 51) with emin by lia.
  replace (emin - emin) with 0 by lia.
  cbn [shr shr_record_of_loc shr_m]. reflexivity.
Qed.

Lemma above_smallest_normal_inv (p : number) :
  above_smallest_normal p ->
  (exists s, Prim2SF p = S754_infinity s) \/
  (exists s m e, Prim2SF p = S754_finite s m e /\ (emin < e \/ 2 ^ 52 < Z.pos m)).
Proof.
  unfold above_smallest_normal. rewrite ltb_spec, abs_spec.
  change (Prim2SF 0x1p-1022%float) with (S754_finite false 4503599627370496 (-1074)).
  destruct (Prim2SF p) as [s|s| |s m e]; try discriminate.
  - intros _. left. now exists s.
  - intros H. right. exists s, m, e. split; [reflexivity|].
    unfold SFltb, SFabs, SFcompare in H.
    destruct (Z.compare_spec (-1074) e) as [E|L|G].
    + right.
      destruct (Pos.compare_cont Eq 4503599627370496 m) eqn:C; try discriminate H.
      pose proof (proj1 (Pos.compare_lt_iff 4503599627370496 m) C) as C2.
      apply Pos2Z.pos_lt_pos in C2. exact C2.
    + left. exact L.
    + discriminate H.
Qed.

Lemma finite_number_of_finite (v : number) (s : bool) (m : positive) (e : Z) :
  Prim2SF v = S754_finite s m e -> finite_number v.
Proof.
  intros E. unfold finite_number. rewrite ltb_spec, abs_spec, E. reflexivity.
Qed.

(** Twice a value above the smallest normal number. *)
Lemma double_above (P : spec_float) :
  valid_binary P = true ->
  match P with
  | S754_finite _ m e => emin < e \/ 2 ^ 52 < Z.pos m
  | _ => True
  end ->
  SF64mul SF_two P = SF_double P.
Proof.
  intros V H. destruct P as [s|s| |s m e]; try reflexivity.
  destruct (valid_binary_inv s m e V) as [He [D|[E D]]].
  - apply double_normal; assumption.
  - exfalso. destruct H as [H|H]; [lia|].
    pose proof (digits2_pos_bounds m) as [_ U].
    assert (2 ^ Z.pos (digits2_pos m) <= 2 ^ 52)
      by (apply Z.pow_le_mono_r; unfold prec in D; lia).
    lia.
Qed.

(** The product of two finite numbers that comes out above the smallest
    normal number was rounded in the normal range. *)
Lemma product_in_normal_range (sa s : bool) (ma m : positive) (ea e : Z) :
  valid_binary (S754_finite sa ma ea) = true ->
  valid_binary (S754_finite s m e) = true ->
  match SF64mul (S754_finite sa ma ea) (S754_finite s m e) with
  | S754_infinity _ => True
  | S754_finite _ mp ep => emin < ep \/ 2 ^ 52 < Z.pos mp
  | _ => False
  end ->
  emin <= Z.pos (digits2_pos (ma * m)) + (ea + e) - prec.
Proof.
  intros VA VW H.
  destruct (valid_binary_inv _ _ _ VA) as [Hea DA].
  destruct (valid_binary_inv _ _ _ VW) as [He DW].
  destruct (Z_le_gt_dec emin (Z.pos (digits2_pos (ma * m)) + (ea + e) - prec))
    as [G|G]; [exact G|exfalso].
  destruct (Z_lt_le_dec (ea + e) emin) as [L|L].
  - pose proof (binary_round_aux_low (xorb sa s) (Z.pos (ma * m)) (ea + e)
                  loc_Exact ltac:(lia) ltac:(cbn [Zdigits2]; lia) L) as B.
    unfold SF64mul, SFmul in H.
    destruct (binary_round_aux prec emax (xorb sa s) (Z.pos (ma * m)) (ea + e)
                loc_Exact) as [s'|s'| |s' mp ep]; try tauto.
    lia.
  - assert (D : prec <= Z.pos (digits2_pos (ma * m))).
    { destruct DA as [DA|[EA _]].
      - change (Z.pos (digits2_pos (ma * m))) with (Zdigits2 (Z.pos (ma * m))).
        replace prec with (Zdigits2 (Z.pos ma)) by (cbn [Zdigits2]; rewrite DA; reflexivity).
        apply Zdigits2_mono. nia.
      - destruct DW as [DW|[EW _]].
        + change (Z.pos (digits2_pos (ma * m))) with (Zdigits2 (Z.pos (ma * m))).
          replace prec with (Zdigits2 (Z.pos m)) by (cbn [Zdigits2]; rewrite DW; reflexivity).
          apply Zdigits2_mono. nia.
        + unfold emin, prec, emax in *. lia. }
    lia.
Qed.

Lemma SF64mul_has_sign (sa s : bool) (ma m : positive) (ea e : Z) :
  SF_has_sign (xorb sa s) (SF64mul (S754_finite sa ma ea) (S754_finite s m e)).
Proof. unfold SF64mul, SFmul. apply binary_round_aux_sign. lia. Qed.

(** Doubling the second factor of a product of finite numbers. *)
Lemma SFmul_double_finite (sa s : bool) (ma m : positive) (ea e : Z) :
  valid_binary (S754_finite sa ma ea) = true ->
  valid_binary (S754_finite s m e) = true ->
  valid_binary (SF64mul (S754_finite sa ma ea) (S754_finite s m e)) = true ->
  (exists s2 m2 e2, SF64mul SF_two (S754_finite s m e) = S754_finite s2 m2 e2) ->
  match SF64mul (S754_finite sa ma ea) (S754_finite s m e) with
  | S754_infinity _ => True
  | S754_finite _ mp ep => emin < ep \/ 2 ^ 52 < Z.pos mp
  | _ => False
  end ->
  SF64mul (S754_finite sa ma ea) (SF64mul SF_two (S754_finite s m e))
  = SF64mul SF_two (SF64mul (S754_finite sa ma ea) (S754_finite s m e)).
Proof.
  intros VA VW VP F2 H.
  pose proof (product_in_normal_range sa s ma m ea e VA VW H) as N.
  rewrite (double_above _ VP)
    by (destruct (SF64mul _ _); tauto).
  destruct (valid_binary_inv _ _ _ VA) as [Hea DA].
  destruct (valid_binary_inv _ _ _ VW) as [He [DW|[EW DW]]].
  - rewrite double_normal in * by assumption.
    unfold SF_double in F2 |- * at 1.
    destruct (e + 1 <=? emax - prec).
    + unfold SF64mul, SFmul. rewrite Z.add_assoc.
      apply binary_round_aux_double; [lia|exact N].
    + destruct F2 as (s2 & m2 & e2 & F2). discriminate F2.
  - subst e. rewrite double_subnormal by exact DW.
    unfold SF64mul, SFmul.
    rewrite Pos.mul_xO_r.
    assert (D : prec <= Z.pos (digits2_pos (ma * m))).
    { destruct DA as [DA|[EA _]].
      - change (Z.pos (digits2_pos (ma * m))) with (Zdigits2 (Z.pos (ma * m))).
        replace prec with (Zdigits2 (Z.pos ma)) by (cbn [Zdigits2]; rewrite DA; reflexivity).
        apply Zdigits2_mono. nia.
      - unfold emin, prec, emax in *. lia. }
    rewrite binary_round_aux_even by lia.
    apply binary_round_aux_double; [lia|exact N].
Qed.

(** [a * (2 * w) = 2 * (a * w)], unless the doubled factor overflows or the
    product is rounded at or below the smallest normal number. *)
Lemma mul_double_exact (a w : number) :
  exact_doubling a w -> (a * (2 * w))%float = (2 * (a * w))%float.
Proof.
  intros H. apply Prim2SF_inj.
  pose proof (Prim2SF_valid a) as VA. pose proof (Prim2SF_valid w) as VW.
  pose proof (Prim2SF_valid (a * w)%float) as VP.
  rewrite (mul_spec a (2 * w)%float), (mul_spec 2 (a * w)%float),
    (mul_spec 2 w). rewrite (mul_spec a w) in VP |- *.
  change (Prim2SF 2%float) with SF_two.
  destruct (Prim2SF w) as [s|s| |s m e] eqn:Ew.
  - destruct (Prim2SF a) as [sa|sa| |sa ma ea]; reflexivity.
  - destruct (Prim2SF a) as [sa|sa| |sa ma ea]; reflexivity.
  - destruct (Prim2SF a) as [sa|sa| |sa ma ea]; reflexivity.
  - destruct H as [Z|[N|[F H]]].
    { apply zero_inv in Z. destruct Z as [s0 Z]. congruence. }
    { elim N. exact (finite_number_of_finite w s m e Ew). }
    assert (F2 : exists s2 m2 e2,
                   SF64mul SF_two (S754_finite s m e) = S754_finite s2 m2 e2).
    { apply finite_number_inv in F. rewrite mul_spec, Ew in F.
      change (Prim2SF 2%float) with SF_two in F.
      destruct (valid_binary_inv s m e VW) as [He [D|[-> D]]].
      - rewrite double_normal in * by assumption. unfold SF_double in *.
        destruct (e + 1 <=? emax - prec); [now eauto|].
        destruct F as [[s2 F]|(s2 & m2 & e2 & F)]; discriminate F.
      - rewrite double_subnormal by exact D. now eauto. }
    destruct (Prim2SF a) as [sa|sa| |sa ma ea] eqn:Ea.
    + destruct F2 as (s2 & m2 & e2 & F2).
      pose proof (SF64mul_has_sign false s 4503599627370496 m (-51) e) as S.
      fold SF_two in S. rewrite F2 in S |- *. cbn in S. subst s2. reflexivity.
    + destruct F2 as (s2 & m2 & e2 & F2).
      pose proof (SF64mul_has_sign false s 4503599627370496 m (-51) e) as S.
      fold SF_two in S. rewrite F2 in S |- *. cbn in S. subst s2. reflexivity.
    + destruct F2 as (s2 & m2 & e2 & F2). rewrite F2. reflexivity.
    + apply SFmul_double_finite; try assumption.
      pose proof (SF64mul_has_sign sa s ma m ea e) as S.
      destruct H as [Z|[Z|Z]].
      * apply zero_inv in Z. destruct Z as [s0 Z]. congruence.
      * apply (f_equal Prim2SF) in Z. rewrite mul_spec, Ea, Ew in Z.
        rewrite Z in S. destruct S.
      * apply above_smallest_normal_inv in Z. rewrite mul_spec, Ea, Ew in Z.
        destruct Z as [[s0 ->]|(s0 & m0 & e0 & -> & Z)]; [exact I|exact Z].
Qed.

End ExactDoubling.

Section OverlayDoubling.

Variable TemplateDesign : Type.
Variable resolveTemplateDesign : TemplateDesign -> ResolvedDesign.

(** C4, as amended. Doubling both target dimensions leaves the pixel fields
    unchanged, whatever the inputs. It doubles a millimetre field exactly
    when the target of that field is zero, an infinity or NaN, or when the
    doubled target is still finite and the original millimetre value is
    NaN, comes from a zero pixel scale, or is larger in magnitude than
    2^-1022, the smallest normal number. *)
Theorem overlay_doubling_when_exact
  (T : Template TemplateDesign) (w h : number) :
  let r := resolveTemplateDesign (front T) in
  let o1 := getPhotoOverlayParams resolveTemplateDesign T w h in
  let o2 := getPhotoOverlayParams resolveTemplateDesign T (2 * w) (2 * h) in
  same_pixels o2 o1 /\
  (exact_doubling (x (photoPosition r) / CARD_WIDTH_PX) w ->
     leftMM o2 = 2 * leftMM o1) /\
  (exact_doubling (y (photoPosition r) / CARD_HEIGHT_PX) h ->
     topMM o2 = 2 * topMM o1) /\
  (exact_doubling (width (photoSize r) / CARD_WIDTH_PX) w ->
     widthMM o2 = 2 * widthMM o1) /\
  (exact_doubling (height (photoSize r) / CARD_HEIGHT_PX) h ->
     heightMM o2 = 2 * heightMM o1).
Proof.
  intros r o1 o2. subst o1 o2 r.
  unfold same_pixels, getPhotoOverlayParams.
  cbn [leftMM topMM widthMM heightMM leftPx topPx widthPx heightPx].
  split; [repeat split|].
  repeat split; apply mul_double_exact.
Qed.

End OverlayDoubling.

Lemma overlay_doubling_witness :
  let T := fixture (design 10 20 50 80 circle (Some true)) in
  doubles_millimetres
    (getPhotoOverlayParams (fun d => d) T (2 * 54) (2 * 86))
    (getPhotoOverlayParams (fun d => d) T 54 86).
Proof.
  pose proof (overlay_doubling_when_exact ResolvedDesign (fun d => d)
                (fixture (design 10 20 50 80 circle (Some true))) 54 86) as H.
  cbv zeta in H. destruct H as (_ & Hl & Ht & Hw & Hh).
  unfold doubles_millimetres.
  split; [apply Hl | split; [apply Ht | split; [apply Hw | apply Hh]]];
    right; right; (split; [reflexivity|]); right; right; reflexivity.
Defined.

(** On a zero target, and on an infinite one, every millimetre field
    doubles, whatever the template. *)
Lemma exact_doubling_special_targets (a : number) :
  exact_doubling a 0 /\ exact_doubling a (-0) /\
  exact_doubling a infinity /\ exact_doubling a neg_infinity /\
  exact_doubling a nan.
Proof.
  repeat split; try (left; reflexivity); right; left; discriminate.
Qed.

(** The two conditions on the product cannot be dropped. A product that
    underflows to zero: pixel 153 * 2^-1000 on a target of 2^-75 gives 0, but
    2^-1074 on the doubled target. A product that rounds up to the smallest
    normal number: the original value is 2^-1022, the doubled call gives
    the number just below 2^-1021. *)
Lemma overlay_doubling_needs_normal_products :
  (let T := fixture (design (153 * 0x1p-1000) 20 50 80 circle (Some true)) in
   let o1 := getPhotoOverlayParams (fun d => d) T 0x1p-75 86 in
   let o2 := getPhotoOverlayParams (fun d => d) T (2 * 0x1p-75) (2 * 86) in
   leftMM o1 = 0 /\ leftMM o2 = 0x1p-1074 /\ leftMM o2 <> 2 * leftMM o1) /\
  (let T := fixture (design 0x1.881p-588 20 50 80 circle (Some true)) in
   let o1 := getPhotoOverlayParams (fun d => d) T 0x1.8f9c18f9c18f9p-428 86 in
   let o2 := getPhotoOverlayParams (fun d => d) T
               (2 * 0x1.8f9c18f9c18f9p-428) (2 * 86) in
   leftMM o1 = 0x1p-1022 /\ leftMM o2 = 0x1.fffffffffffffp-1022 /\
   leftMM o2 <> 2 * leftMM o1).
Proof.
  split; (split; [reflexivity|]; split; [reflexivity|]);
    intros H; apply (f_equal Prim2SF) in H; vm_compute in H; discriminate H.
Qed.

Lemma reference_dimensions :
  (strictly_positive CARD_WIDTH_PX /\ finite_number CARD_WIDTH_PX) /\
  (strictly_positive CARD_HEIGHT_PX /\ finite_number CARD_HEIGHT_PX) /\
  (exists s m e, Prim2SF CARD_WIDTH_PX = S754_finite s m e) /\
  (exists s m e, Prim2SF CARD_HEIGHT_PX = S754_finite s m e).
Proof.
  repeat split; try exact I; do 3 eexists; reflexivity.
Qed.

(** A zero pixel value on an infinite target gives NaN. *)
Lemma scaled_zero_infinite (px ref w : number) :
  (px =? 0) = true ->
  (exists s m e, Prim2SF ref = S754_finite s m e) ->
  w = infinity \/ w = neg_infinity ->
  px / ref * w = nan.
Proof.
  intros Hpx (sr & mr & er & Er) Hw.
  destruct (zero_inv px Hpx) as [s Ex].
  apply Prim2SF_inj. rewrite mul_spec, div_spec, Ex, Er.
  destruct Hw as [-> | ->]; reflexivity.
Qed.

Section OverlayEdges.

Variable TemplateDesign : Type.
Variable resolveTemplateDesign : TemplateDesign -> ResolvedDesign.

(** X2. Negating both target dimensions negates every millimetre field
    exactly, for all numbers (zeros, infinities and NaN included), and leaves
    the pixel fields, the shape and the visibility as they are: the function
    does not reject or clamp negative targets. *)
Theorem overlay_negated_targets
  (T : Template TemplateDesign) (w h : number) :
  let o1 := getPhotoOverlayParams resolveTemplateDesign T w h in
  let o2 := getPhotoOverlayParams resolveTemplateDesign T (- w) (- h) in
  negates_millimetres o2 o1 /\
  same_pixels o2 o1 /\
  shape o2 = shape o1 /\
  visible o2 = visible o1.
Proof.
  intros o1 o2. subst o1 o2.
  unfold negates_millimetres, same_pixels, getPhotoOverlayParams.
  cbn [leftMM topMM widthMM heightMM leftPx topPx widthPx heightPx shape visible].
  repeat split; apply mul_opp_r.
Qed.

(** X3. A pixel value of zero (either sign) gives a millimetre value of zero
    on every finite target, and NaN on an infinite one. *)
Theorem overlay_zero_pixels
  (T : Template TemplateDesign) (w h : number) :
  let r := resolveTemplateDesign (front T) in
  let o := getPhotoOverlayParams resolveTemplateDesign T w h in
  (finite_number w ->
     ((x (photoPosition r) =? 0) = true -> (leftMM o =? 0) = true) /\
     ((width (photoSize r) =? 0) = true -> (widthMM o =? 0) = true)) /\
  (finite_number h ->
     ((y (photoPosition r) =? 0) = true -> (topMM o =? 0) = true) /\
     ((height (photoSize r) =? 0) = true -> (heightMM o =? 0) = true)) /\
  (w = infinity \/ w = neg_infinity ->
     ((x (photoPosition r) =? 0) = true -> leftMM o = nan) /\
     ((width (photoSize r) =? 0) = true -> widthMM o = nan)) /\
  (h = infinity \/ h = neg_infinity ->
     ((y (photoPosition r) =? 0) = true -> topMM o = nan) /\
     ((height (photoSize r) =? 0) = true -> heightMM o = nan)).
Proof.
  intros r o. subst o r. unfold getPhotoOverlayParams.
  cbn [leftMM topMM widthMM heightMM].
  destruct reference_dimensions as (_ & _ & Rw & Rh).
  repeat split; intros;
    first [ apply scaled_zero; assumption
          | apply scaled_zero_infinite; assumption ].
Qed.

(** X4. When the photo is visible and the target dimensions are strictly
    positive and finite, the millimetre width and height are numbers that
    are not negative: never NaN and never below zero. *)
Theorem overlay_visible_sizes_nonneg
  (T : Template TemplateDesign) (w h : number) :
  let o := getPhotoOverlayParams resolveTemplateDesign T w h in
  visible o = true ->
  strictly_positive w -> finite_number w ->
  strictly_positive h -> finite_number h ->
  (0 <=? widthMM o) = true /\ (0 <=? heightMM o) = true.
Proof.
  intros o V Hw Fw Hh Fh. subst o. revert V.
  unfold getPhotoOverlayParams. cbn [visible widthMM heightMM].
  rewrite !andb_true_iff, !js_gt_zero_iff. intros [[_ Pw] Ph].
  destruct reference_dimensions as ([Sw Rw] & [Sh Rh] & _).
  split; apply scaled_size_nonneg; assumption.
Qed.

End OverlayEdges.

Lemma overlay_zero_pixels_witness :
  let o := getPhotoOverlayParams (fun d => d)
             (fixture (design 0 0 50 80 circle (Some true))) 54 86 in
  (leftMM o =? 0) = true.
Proof.
  apply (overlay_zero_pixels ResolvedDesign (fun d => d)
           (fixture (design 0 0 50 80 circle (Some true))) 54 86);
    reflexivity.
Defined.

Lemma overlay_visible_sizes_nonneg_witness :
  let o := getPhotoOverlayParams (fun d => d)
             (fixture (design 10 20 50 80 circle (Some true))) 54 86 in
  (0 <=? widthMM o) = true /\ (0 <=? heightMM o) = true.
Proof.
  apply (overlay_visible_sizes_nonneg ResolvedDesign (fun d => d)
           (fixture (design 10 20 50 80 circle (Some true))) 54 86);
    first [reflexivity | exact I].
Defined.

(** X7. The shape of what a call prints: the first new entry begins with
    the tag "[PHOTO-VERIFY] " followed by the subject name, and is a warning
    exactly when the payload is absent; every entry after it is
    informational and begins with two spaces and a tree-drawing character
    (a tee, or an elbow on the last line). *)
Theorem verify_line_prefixes
  (name templateName : js_string) (payload : option js_string) (c : Console) :
  exists first others,
    snd (verifyPhotoSource name payload templateName c) = c ++ first :: others /\
    begins_with (text first) (lit "[PHOTO-VERIFY] " ++ name) /\
    (level first = Warn <-> payload = None \/ payload = Some []) /\
    (forall e, In e others ->
       level e = Log /\
       (begins_with (text e) (lit "  " ++ tee) \/
        begins_with (text e) (lit "  " ++ elbow))) /\
    (others <> [] ->
       begins_with (text (last others first)) (lit "  " ++ elbow)).
Proof.
  destruct payload as [[|u rest]|].
  - exists {| level := Warn;
              text := lit "[PHOTO-VERIFY] " ++ name ++ lit ": NO PHOTO " ++ em_dash
                      ++ lit " export will have blank photo area" |}, [].
    split; [reflexivity|]. split.
    { eexists. rewrite <- app_assoc. reflexivity. }
    split; [split; auto|]. split; [intros e []|]. intros H. now elim H.
  - rewrite verifyPhotoSource_present. unfold info_block. cbn [snd].
    eexists _, _. split; [reflexivity|]. split.
    { exists (lit ":"). unfold info, header_line. cbn [text].
      rewrite <- app_assoc. reflexivity. }
    split.
    { split; [discriminate|]. intros [H|H]; discriminate H. }
    split.
    + intros e H. cbn [In] in H.
      destruct H as [<-|[<-|[<-|[<-|[<-|[]]]]]]; (split; [reflexivity|]);
        unfold info, template_line, data_url_line, format_line, size_line,
          source_line; cbn [text];
        first [ left; eexists; rewrite <- app_assoc; reflexivity
              | right; eexists; rewrite <- app_assoc; reflexivity ].
    + intros _. cbn [last]. unfold info, source_line. cbn [text].
      eexists. rewrite <- app_assoc. reflexivity.
  - exists {| level := Warn;
              text := lit "[PHOTO-VERIFY] " ++ name ++ lit ": NO PHOTO " ++ em_dash
                      ++ lit " export will have blank photo area" |}, [].
    split; [reflexivity|]. split.
    { eexists. rewrite <- app_assoc. reflexivity. }
    split; [split; auto|]. split; [intros e []|]. intros H. now elim H.
Qed.
